(** * keepalived [lib/align.h]: the pointer-cast macros

    A shallow embedding of [PTR_CAST], [PTR_CAST_CONST], [PTR_CAST2] and
    [PTR_CAST2_CONST] (all instances of [PTR_CAST_ALL] / [PTR_CAST2_ALL]),
    for the four builds selected by [CAST_VIA_VOID] and [CHECK_CAST_ALIGN].

    A pointer is its address together with the static type the C expression
    has; the calls to [log_message] and [printf] are recorded, in order, in a
    writer monad. *)

From Stdlib Require Import ZArith List String Bool Lia.
Import ListNotations.
Local Open Scope Z_scope.

(** ** Build configuration and target ABI *)

(** The two preprocessor symbols that [config.h] may define. *)
Record config := Config {
  CAST_VIA_VOID : bool;
  CHECK_CAST_ALIGN : bool
}.

(** [long], [size_t] and pointers have the same width on the ABIs keepalived
    is built for: 32 bits (ILP32, e.g. 32 bit ARM) or 64 bits (LP64). *)
Inductive data_model := ILP32 | LP64.

Definition word_bits (dm : data_model) : Z :=
  match dm with ILP32 => 32 | LP64 => 64 end.

Definition modulus (dm : data_model) : Z := 2 ^ word_bits dm.

(** An address that a pointer of this ABI can hold. *)
Definition valid_address (dm : data_model) (a : Z) : Prop :=
  0 <= a < modulus dm.

(** ** Types, pointers and macro arguments *)

(** What the macros use of a type argument: its spelling (for [#__type]) and
    [__alignof__(__type)], a positive [size_t] constant. *)
Record ctype := CType {
  spelling : string;
  alignof : positive
}.

Inductive pointee :=
| Void
| Object (t : ctype).

(** The [__const] macro argument: empty in [PTR_CAST] and [PTR_CAST2],
    [const] in the [_CONST] variants. *)
Inductive qualifier := Unqualified | Const.

Record pointer := Pointer {
  qual : qualifier;
  target : pointee;
  address : Z
}.

(** A pointer-valued macro argument: its spelling (for [#__ptr]) and the
    value it evaluates to. *)
Record expr := Expr {
  text : string;
  value : pointer
}.

(** The [__field] argument: a member designator of [__type1], the member's
    type and [offsetof(__type1, __field)]. *)
Record member := Member {
  designator : string;
  member_type : ctype;
  offset : Z
}.

(** ** The diagnostic calls *)

(** Modelled from the spec: the severity of the sink's
    [report(severity, message)]; [logger.h] and the [<syslog.h>] priorities
    it relies on are not part of the sources, the names are those of
    [<syslog.h>]. *)
Inductive priority :=
| LOG_EMERG | LOG_ALERT | LOG_CRIT | LOG_ERR
| LOG_WARNING | LOG_NOTICE | LOG_INFO | LOG_DEBUG.

(** The variadic arguments of the two format directives used: [%zu] and
    [%p]. *)
Inductive fmt_arg :=
| Arg_zu (n : Z)
| Arg_p (a : Z).

(** A call made by a macro body: the function called, its format string and
    the arguments after it. *)
Inductive call :=
| log_message (prio : priority) (fmt : string) (args : list fmt_arg)
| printf (fmt : string) (args : list fmt_arg).

Definition IO (A : Type) : Type := (A * list call)%type.

Definition ret {A : Type} (a : A) : IO A := (a, []).

Definition bind {A B : Type} (m : IO A) (k : A -> IO B) : IO B :=
  let (a, l) := m in
  let (b, l') := k a in
  (b, l ++ l').

Definition emit (c : call) : IO unit := (tt, [c]).

(** [if (b) stmt;] *)
Definition when (b : bool) (m : IO unit) : IO unit :=
  if b then m else ret tt.

Notation "m ;; k" := (bind m (fun _ => k)) (at level 61, right associativity).

(** The pointer returned and the calls made. *)
Definition result {A : Type} (m : IO A) : A := fst m.
Definition diagnostics {A : Type} (m : IO A) : list call := snd m.

(** What a diagnostic is, apart from the text of its format string: the
    function called and the values passed. *)
Inductive sink := Logger (prio : priority) | Stdout.

Definition sink_of (c : call) : sink :=
  match c with
  | log_message prio _ _ => Logger prio
  | printf _ _ => Stdout
  end.

Definition args_of (c : call) : list fmt_arg :=
  match c with
  | log_message _ _ args => args
  | printf _ args => args
  end.

Definition signature (c : call) : sink * list fmt_arg := (sink_of c, args_of c).

(** ** Conversions *)

(** A pointer cast [(q t * ) p], and the initialisation of a [q void *]
    from [p]: the static type changes, the address does not. *)
Definition convert (q : qualifier) (t : pointee) (p : pointer) : pointer :=
  {| qual := q; target := t; address := address p |}.

Section Macros.

Variable dm : data_model.
Variable cfg : config.

(** [(long) p]: the address reinterpreted as a signed word. *)
Definition to_long (a : Z) : Z :=
  let m := a mod modulus dm in
  if m <? modulus dm / 2 then m else m - modulus dm.

(** The conversion of a [long] to [size_t] that [long % size_t] applies to
    its left operand. *)
Definition to_size_t (x : Z) : Z := x mod modulus dm.

(** [(long)p % __alignof__(t)], as the condition of an [if]. Both operands
    are unsigned after the usual arithmetic conversions; [Z.rem] is C's
    truncating [%]. *)
Definition misaligned (p : pointer) (t : ctype) : bool :=
  negb (Z.rem (to_size_t (to_long (address p))) (Z.pos (alignof t)) =? 0).

(** [&p->f]: pointer arithmetic on a word. *)
Definition member_address (p : pointer) (f : member) : pointer :=
  {| qual := qual p;
     target := Object (member_type f);
     address := (address p + offset f) mod modulus dm |}.

(** [#define __CAST_PTR(__const) (__const void * )] under [CAST_VIA_VOID],
    empty otherwise. *)
Definition __CAST_PTR (q : qualifier) (p : pointer) : pointer :=
  if CAST_VIA_VOID cfg then convert q Void p else p.

Definition qualifier_text (q : qualifier) : string :=
  match q with Unqualified => "" | Const => "const" end.

(** ["Alignment error - (" #__type " * )(" #__ptr ") - alignment %zu, address %p"] *)
Definition alignment_error (type_text ptr_text : string) : string :=
  ("Alignment error - (" ++ type_text ++ " *)(" ++ ptr_text
     ++ ") - alignment %zu, address %p")%string.

(** The spelling of the argument that [PTR_CAST2_ALL] passes on as [__ptr]:
    [&(((__const __type1 * ) __CAST_PTR(__const) (sav_ptr1))->__field)] with
    the parameters replaced; [__CAST_PTR] is not expanded under [#]. *)
Definition member_text (q : qualifier) (ty1 : ctype) (f : member) : string :=
  ("&(((" ++ qualifier_text q ++ " " ++ spelling ty1 ++ " *) __CAST_PTR("
     ++ qualifier_text q ++ ") (sav_ptr1))->" ++ designator f ++ ")")%string.

Definition PTR_CAST_ALL (ty : ctype) (ptr : expr) (q : qualifier) : IO pointer :=
  if CHECK_CAST_ALIGN cfg then
    let sav_ptr := convert q Void (value ptr) in
    when (misaligned sav_ptr ty)
         (emit (log_message LOG_INFO
                  (alignment_error (spelling ty) (text ptr))
                  [Arg_zu (Z.pos (alignof ty)); Arg_p (address sav_ptr)])) ;;
    ret (convert q (Object ty) (__CAST_PTR q sav_ptr))
  else
    ret (convert q (Object ty) (__CAST_PTR q (value ptr))).

Definition PTR_CAST2_ALL (ty ty1 : ctype) (ptr : expr) (f : member)
    (q : qualifier) : IO pointer :=
  if CHECK_CAST_ALIGN cfg then
    let sav_ptr1 := convert q Void (value ptr) in
    when (misaligned sav_ptr1 ty1)
         (emit (printf
                  (alignment_error (spelling ty1) (text ptr))
                  [Arg_zu (Z.pos (alignof ty1)); Arg_p (address sav_ptr1)])) ;;
    PTR_CAST_ALL ty
      {| text := member_text q ty1 f;
         value := member_address
                    (convert q (Object ty1) (__CAST_PTR q sav_ptr1)) f |}
      q
  else
    ret (convert q (Object ty)
           (__CAST_PTR q
              (member_address
                 (convert q (Object ty1) (__CAST_PTR q (value ptr))) f))).

Definition PTR_CAST (ty : ctype) (ptr : expr) : IO pointer :=
  PTR_CAST_ALL ty ptr Unqualified.

Definition PTR_CAST_CONST (ty : ctype) (ptr : expr) : IO pointer :=
  PTR_CAST_ALL ty ptr Const.

Definition PTR_CAST2 (ty ty1 : ctype) (ptr : expr) (f : member) : IO pointer :=
  PTR_CAST2_ALL ty ty1 ptr f Unqualified.

Definition PTR_CAST2_CONST (ty ty1 : ctype) (ptr : expr) (f : member) : IO pointer :=
  PTR_CAST2_ALL ty ty1 ptr f Const.

End Macros.

(** The address of the member that [PTR_CAST2_ALL] computes from [ptr],
    with the static type [&p->f] has. *)
Definition member_pointer (dm : data_model) (ty1 : ctype) (ptr : expr)
    (f : member) (q : qualifier) : pointer :=
  member_address dm (convert q (Object ty1) (value ptr)) f.

(** ** Structure layout *)

(** Modelled from the spec: the layout of a structure under natural
    alignment, which the compiler (not these sources) decides: every member
    is placed at the next multiple of its type's alignment, and the structure
    is aligned as its most aligned member. *)
Record declarator := Declarator {
  decl_name : string;
  decl_type : ctype;
  decl_size : Z
}.

Definition align_up (off : Z) (al : positive) : Z :=
  (off + Z.pos al - 1) / Z.pos al * Z.pos al.

Fixpoint layout (off : Z) (ds : list declarator) : list member :=
  match ds with
  | [] => []
  | d :: ds' =>
      let o := align_up off (alignof (decl_type d)) in
      {| designator := decl_name d; member_type := decl_type d; offset := o |}
        :: layout (o + decl_size d) ds'
  end.

Definition struct_alignof (ds : list declarator) : positive :=
  fold_right (fun d m => Pos.max (alignof (decl_type d)) m) 1%positive ds.

Fixpoint find_member (name : string) (ms : list member) : option member :=
  match ms with
  | [] => None
  | m :: ms' =>
      if String.eqb (designator m) name then Some m else find_member name ms'
  end.

(** The structure [I = { pad: byte[1], x: uint32 }] of the two-stage
    example. *)
Definition uint8_array_1 : ctype := {| spelling := "uint8_t [1]"; alignof := 1 |}.
Definition uint32_t : ctype := {| spelling := "uint32_t"; alignof := 4 |}.

Definition I_members : list declarator :=
  [ {| decl_name := "pad"; decl_type := uint8_array_1; decl_size := 1 |};
    {| decl_name := "x"; decl_type := uint32_t; decl_size := 4 |} ].

Definition struct_I : ctype :=
  {| spelling := "struct I"; alignof := struct_alignof I_members |}.

Definition I_x : member :=
  {| designator := "x"; member_type := uint32_t; offset := 4 |}.

(** ** Sample arguments *)

Definition char : ctype := {| spelling := "char"; alignof := 1 |}.

(** An expression [buf] of type [char *] whose value is the address [a]. *)
Definition buf (a : Z) : expr :=
  {| text := "buf";
     value := {| qual := Unqualified; target := Object char; address := a |} |}.

(** The expression [NULL]. *)
Definition NULL : expr :=
  {| text := "NULL";
     value := {| qual := Unqualified; target := Void; address := 0 |} |}.

(** ** The assignment macros and the two steps of the field cast *)

(** [#define PTR_CAST_ASSIGN (void * )] and
    [#define PTR_CAST_ASSIGN_CONST (const void * )] under [CAST_VIA_VOID],
    both empty otherwise: a prefix of the expression that is assigned. *)
Definition PTR_CAST_ASSIGN (cfg : config) (p : pointer) : pointer :=
  if CAST_VIA_VOID cfg then convert Unqualified Void p else p.

Definition PTR_CAST_ASSIGN_CONST (cfg : config) (p : pointer) : pointer :=
  if CAST_VIA_VOID cfg then convert Const Void p else p.

(** The first statement of the checked [PTR_CAST2_ALL]: the test of the
    argument against [__type1], reported with [printf]. Nothing in the
    unchecked build. *)
Definition base_check (dm : data_model) (cfg : config) (ty1 : ctype)
    (ptr : expr) : IO unit :=
  when (CHECK_CAST_ALIGN cfg && misaligned dm (value ptr) ty1)
       (emit (printf (alignment_error (spelling ty1) (text ptr))
                [Arg_zu (Z.pos (alignof ty1)); Arg_p (address (value ptr))])).

(** The expression [&(((__const __type1 * ) (ptr))->__field)]: its spelling
    in the checked [PTR_CAST2_ALL] and its value. *)
Definition member_expr (dm : data_model) (ty1 : ctype) (ptr : expr)
    (f : member) (q : qualifier) : expr :=
  {| text := member_text q ty1 f; value := member_pointer dm ty1 ptr f q |}.

(** More sample arguments: [pad], the first member of [struct I]; a member
    at offset 2 of a structure aligned to 4; an expression [buf] of type
    [const void *]. *)
Definition I_pad : member :=
  {| designator := "pad"; member_type := uint8_array_1; offset := 0 |}.

Definition uint16_t : ctype := {| spelling := "uint16_t"; alignof := 2 |}.

Definition struct_J : ctype := {| spelling := "struct J"; alignof := 4 |}.

Definition J_b : member :=
  {| designator := "b"; member_type := uint16_t; offset := 2 |}.

Definition const_buf (a : Z) : expr :=
  {| text := "buf";
     value := {| qual := Const; target := Void; address := a |} |}.

(** ** Arithmetic of the alignment test *)

Lemma modulus_pos (dm : data_model) : 0 < modulus dm.
Proof. destruct dm; reflexivity. Qed.

Lemma to_size_t_to_long (dm : data_model) (a : Z) :
  to_size_t dm (to_long dm a) = a mod modulus dm.
Proof.
  pose proof (modulus_pos dm) as HM.
  unfold to_size_t, to_long; cbv zeta.
  destruct (a mod modulus dm <? modulus dm / 2).
  - apply Z.mod_mod; lia.
  - replace (a mod modulus dm - modulus dm)
      with (a mod modulus dm + (-1) * modulus dm) by ring.
    rewrite Z_mod_plus_full. apply Z.mod_mod; lia.
Qed.

(** On an address the ABI can hold, the test of the macros is the
    mathematical [a mod alignof(t) <> 0]. *)
Lemma misaligned_valid (dm : data_model) (p : pointer) (t : ctype) :
  valid_address dm (address p) ->
  misaligned dm p t = negb (address p mod Z.pos (alignof t) =? 0).
Proof.
  intros Hv. unfold misaligned.
  rewrite to_size_t_to_long, Z.mod_small by exact Hv.
  rewrite Z.rem_mod_nonneg by (destruct Hv; lia).
  reflexivity.
Qed.

Lemma misaligned_null (dm : data_model) (p : pointer) (t : ctype) :
  address p = 0 -> misaligned dm p t = false.
Proof.
  intros H0. rewrite misaligned_valid.
  - rewrite H0, Z.mod_0_l by lia. reflexivity.
  - rewrite H0. pose proof (modulus_pos dm). unfold valid_address. lia.
Qed.

(** ** What each macro returns and what it reports *)

Lemma result_bind {A B : Type} (m : IO A) (k : A -> IO B) :
  result (bind m k) = result (k (result m)).
Proof.
  unfold bind, result. destruct m as [a l]; cbn [fst].
  destruct (k a); reflexivity.
Qed.

Lemma diagnostics_bind {A B : Type} (m : IO A) (k : A -> IO B) :
  diagnostics (bind m k) = diagnostics m ++ diagnostics (k (result m)).
Proof.
  unfold bind, result, diagnostics. destruct m as [a l]; cbn [fst snd].
  destruct (k a); reflexivity.
Qed.

Lemma diagnostics_when (b : bool) (c : call) :
  diagnostics (when b (emit c)) = if b then [c] else [].
Proof. destruct b; reflexivity. Qed.

Lemma convert_CAST_PTR (cfg : config) (q q' : qualifier) (t : pointee) (p : pointer) :
  convert q t (__CAST_PTR cfg q' p) = convert q t p.
Proof. unfold __CAST_PTR. destruct (CAST_VIA_VOID cfg); reflexivity. Qed.

Lemma member_address_CAST_PTR (dm : data_model) (cfg : config) (q : qualifier)
    (t : pointee) (p : pointer) (f : member) :
  member_address dm (convert q t (__CAST_PTR cfg q p)) f
  = member_address dm (convert q t p) f.
Proof. rewrite convert_CAST_PTR. reflexivity. Qed.

Lemma PTR_CAST_ALL_result dm cfg ty ptr q :
  result (PTR_CAST_ALL dm cfg ty ptr q) = convert q (Object ty) (value ptr).
Proof.
  unfold PTR_CAST_ALL.
  destruct (CHECK_CAST_ALIGN cfg); cbv zeta.
  - rewrite result_bind. unfold ret, result; cbn [fst].
    rewrite convert_CAST_PTR. reflexivity.
  - unfold ret, result; cbn [fst]. apply convert_CAST_PTR.
Qed.

Lemma PTR_CAST_ALL_diagnostics dm cfg ty ptr q :
  diagnostics (PTR_CAST_ALL dm cfg ty ptr q)
  = if CHECK_CAST_ALIGN cfg && misaligned dm (value ptr) ty
    then [log_message LOG_INFO (alignment_error (spelling ty) (text ptr))
            [Arg_zu (Z.pos (alignof ty)); Arg_p (address (value ptr))]]
    else [].
Proof.
  unfold PTR_CAST_ALL.
  destruct (CHECK_CAST_ALIGN cfg); [|reflexivity].
  cbv zeta. rewrite diagnostics_bind, diagnostics_when.
  change (diagnostics (ret ?x)) with (@nil call). rewrite app_nil_r.
  reflexivity.
Qed.

Lemma PTR_CAST2_ALL_result dm cfg ty ty1 ptr f q :
  result (PTR_CAST2_ALL dm cfg ty ty1 ptr f q)
  = convert q (Object ty) (member_pointer dm ty1 ptr f q).
Proof.
  unfold PTR_CAST2_ALL, member_pointer.
  destruct (CHECK_CAST_ALIGN cfg); cbv zeta.
  - rewrite result_bind, PTR_CAST_ALL_result; cbn [value].
    rewrite member_address_CAST_PTR. reflexivity.
  - unfold ret, result; cbn [fst].
    rewrite convert_CAST_PTR, member_address_CAST_PTR. reflexivity.
Qed.

Lemma PTR_CAST2_ALL_diagnostics dm cfg ty ty1 ptr f q :
  diagnostics (PTR_CAST2_ALL dm cfg ty ty1 ptr f q)
  = (if CHECK_CAST_ALIGN cfg && misaligned dm (value ptr) ty1
     then [printf (alignment_error (spelling ty1) (text ptr))
             [Arg_zu (Z.pos (alignof ty1)); Arg_p (address (value ptr))]]
     else [])
    ++
    (if CHECK_CAST_ALIGN cfg && misaligned dm (member_pointer dm ty1 ptr f q) ty
     then [log_message LOG_INFO
             (alignment_error (spelling ty) (member_text q ty1 f))
             [Arg_zu (Z.pos (alignof ty));
              Arg_p (address (member_pointer dm ty1 ptr f q))]]
     else []).
Proof.
  unfold PTR_CAST2_ALL, member_pointer.
  destruct (CHECK_CAST_ALIGN cfg) eqn:Hchk; [|reflexivity].
  cbv zeta.
  rewrite diagnostics_bind, diagnostics_when, PTR_CAST_ALL_diagnostics, Hchk.
  cbn [text value andb]. rewrite member_address_CAST_PTR.
  reflexivity.
Qed.

Lemma misaligned_address (dm : data_model) (p p' : pointer) (t : ctype) :
  address p = address p' -> misaligned dm p t = misaligned dm p' t.
Proof. unfold misaligned. intros ->. reflexivity. Qed.

Lemma member_pointer_address dm ty1 ptr f q :
  address (member_pointer dm ty1 ptr f q)
  = (address (value ptr) + offset f) mod modulus dm.
Proof. reflexivity. Qed.

(** ** Address of the result *)

(** C1: in each of the four builds, [PTR_CAST] and [PTR_CAST_CONST] return
    a pointer whose address is the address of the argument, whatever the
    target type. *)
Theorem PTR_CAST_identity (dm : data_model) (cfg : config) (ty : ctype)
    (ptr : expr) :
  address (result (PTR_CAST dm cfg ty ptr)) = address (value ptr)
  /\ address (result (PTR_CAST_CONST dm cfg ty ptr)) = address (value ptr).
Proof.
  unfold PTR_CAST, PTR_CAST_CONST.
  rewrite !PTR_CAST_ALL_result. split; reflexivity.
Qed.

(** C2: in each of the four builds, [PTR_CAST2] and [PTR_CAST2_CONST] return
    a pointer whose address is the address of the argument plus the offset of
    the member in the intermediate structure, for every argument whose member
    lies in the address space. *)
Theorem PTR_CAST2_offset (dm : data_model) (cfg : config) (ty ty1 : ctype)
    (ptr : expr) (f : member) :
  valid_address dm (address (value ptr) + offset f) ->
  address (result (PTR_CAST2 dm cfg ty ty1 ptr f))
    = address (value ptr) + offset f
  /\ address (result (PTR_CAST2_CONST dm cfg ty ty1 ptr f))
    = address (value ptr) + offset f.
Proof.
  intros Hv. unfold PTR_CAST2, PTR_CAST2_CONST.
  rewrite !PTR_CAST2_ALL_result. cbn [convert address].
  rewrite !member_pointer_address, Z.mod_small by exact Hv.
  split; reflexivity.
Qed.

Lemma PTR_CAST2_offset_witness :
  valid_address LP64 (address (value (buf 0x1000)) + offset I_x)
  /\ address (result (PTR_CAST2 LP64 (Config true true) uint32_t struct_I
                       (buf 0x1000) I_x)) = 0x1004
  /\ address (result (PTR_CAST2_CONST LP64 (Config true true) uint32_t struct_I
                       (buf 0x1000) I_x)) = 0x1004.
Proof.
  assert (Hv : valid_address LP64 (address (value (buf 0x1000)) + offset I_x))
    by (unfold valid_address, modulus; simpl; lia).
  split; [exact Hv|].
  exact (PTR_CAST2_offset LP64 (Config true true) uint32_t struct_I
           (buf 0x1000) I_x Hv).
Defined.

(** ** Diagnostics of the whole-object cast *)

(** C3: with [CHECK_CAST_ALIGN], a whole-object cast of an address that is
    not a multiple of [__alignof__] of the target type calls [log_message]
    exactly once, passing that alignment and the address, and still returns
    a pointer to the same address. *)
Theorem PTR_CAST_ALL_misaligned (dm : data_model) (cfg : config) (ty : ctype)
    (ptr : expr) (q : qualifier) :
  CHECK_CAST_ALIGN cfg = true ->
  valid_address dm (address (value ptr)) ->
  address (value ptr) mod Z.pos (alignof ty) <> 0 ->
  diagnostics (PTR_CAST_ALL dm cfg ty ptr q)
    = [log_message LOG_INFO (alignment_error (spelling ty) (text ptr))
         [Arg_zu (Z.pos (alignof ty)); Arg_p (address (value ptr))]]
  /\ address (result (PTR_CAST_ALL dm cfg ty ptr q)) = address (value ptr).
Proof.
  intros Hchk Hv Hmis. split.
  - rewrite PTR_CAST_ALL_diagnostics, Hchk, misaligned_valid by exact Hv.
    apply Z.eqb_neq in Hmis. rewrite Hmis. reflexivity.
  - rewrite PTR_CAST_ALL_result. reflexivity.
Qed.

Lemma PTR_CAST_ALL_misaligned_witness :
  diagnostics (PTR_CAST_ALL LP64 (Config false true) uint32_t (buf 0x1001)
                 Unqualified)
    = [log_message LOG_INFO
         "Alignment error - (uint32_t *)(buf) - alignment %zu, address %p"
         [Arg_zu 4; Arg_p 0x1001]]
  /\ address (result (PTR_CAST_ALL LP64 (Config false true) uint32_t
                        (buf 0x1001) Unqualified)) = 0x1001.
Proof.
  apply (PTR_CAST_ALL_misaligned LP64 (Config false true) uint32_t
           (buf 0x1001) Unqualified).
  - reflexivity.
  - unfold valid_address, modulus; simpl; lia.
  - vm_compute; lia.
Defined.

(** C4: with [CHECK_CAST_ALIGN], a whole-object cast of an address that is a
    multiple of [__alignof__] of the target type makes no call at all. *)
Theorem PTR_CAST_ALL_aligned_silent (dm : data_model) (cfg : config)
    (ty : ctype) (ptr : expr) (q : qualifier) :
  CHECK_CAST_ALIGN cfg = true ->
  valid_address dm (address (value ptr)) ->
  address (value ptr) mod Z.pos (alignof ty) = 0 ->
  diagnostics (PTR_CAST_ALL dm cfg ty ptr q) = [].
Proof.
  intros Hchk Hv Hal.
  rewrite PTR_CAST_ALL_diagnostics, Hchk, misaligned_valid by exact Hv.
  rewrite Hal. reflexivity.
Qed.

Lemma PTR_CAST_ALL_aligned_silent_witness :
  diagnostics (PTR_CAST_ALL ILP32 (Config true true) uint32_t (buf 0x1004)
                 Const) = [].
Proof.
  apply (PTR_CAST_ALL_aligned_silent ILP32 (Config true true) uint32_t
           (buf 0x1004) Const).
  - reflexivity.
  - unfold valid_address, modulus; simpl; lia.
  - reflexivity.
Defined.

(** ** The field cast under [CHECK_CAST_ALIGN] *)

(** C5: the two checks of the field cast do not report to one sink. On the
    address [0x1001] and the member [x] of [struct I] both checks fail: the
    check of the base address against [struct I] calls [printf], the check of
    the member address against [uint32_t] calls [log_message]. *)
Theorem PTR_CAST2_base_check_calls_printf :
  diagnostics (PTR_CAST2 LP64 (Config false true) uint32_t struct_I
                 (buf 0x1001) I_x)
  = [ printf
        "Alignment error - (struct I *)(buf) - alignment %zu, address %p"
        [Arg_zu 4; Arg_p 0x1001];
      log_message LOG_INFO
        "Alignment error - (uint32_t *)(&((( struct I *) __CAST_PTR() (sav_ptr1))->x)) - alignment %zu, address %p"
        [Arg_zu 4; Arg_p 0x1005] ]
  /\ map sink_of
       (diagnostics (PTR_CAST2 LP64 (Config false true) uint32_t struct_I
                       (buf 0x1001) I_x))
     = [Stdout; Logger LOG_INFO].
Proof. split; vm_compute; reflexivity. Qed.

(** C6: natural alignment places [x] at offset 4 of
    [I = { pad: byte[1], x: uint32 }]; on the address [0x1001] the validated
    field cast computes the member address [0x1005], calls [log_message] with
    the alignment 4 and the address [0x1005], and returns a pointer to
    [0x1005]. *)
Theorem field_two_stage_example (dm : data_model) (via_void : bool)
    (q : qualifier) (ptr : expr) :
  address (value ptr) = 0x1001 ->
  find_member "x" (layout 0 I_members) = Some I_x
  /\ offset I_x = 4
  /\ address (member_pointer dm struct_I ptr I_x q) = 0x1005
  /\ 0x1005 mod Z.pos (alignof uint32_t) = 1
  /\ In (log_message LOG_INFO
           (alignment_error "uint32_t" (member_text q struct_I I_x))
           [Arg_zu 4; Arg_p 0x1005])
        (diagnostics (PTR_CAST2_ALL dm (Config via_void true) uint32_t
                        struct_I ptr I_x q))
  /\ address (result (PTR_CAST2_ALL dm (Config via_void true) uint32_t
                        struct_I ptr I_x q)) = 0x1005.
Proof.
  intros Ha.
  assert (Hm : address (member_pointer dm struct_I ptr I_x q) = 0x1005)
    by (rewrite member_pointer_address, Ha; destruct dm; reflexivity).
  assert (Hmis : misaligned dm (member_pointer dm struct_I ptr I_x q) uint32_t
                 = true)
    by (unfold misaligned; rewrite Hm; destruct dm; reflexivity).
  repeat split; try reflexivity; try exact Hm.
  - rewrite PTR_CAST2_ALL_diagnostics. apply in_or_app. right.
    cbn [CHECK_CAST_ALIGN andb]. rewrite Hmis, Hm. left. reflexivity.
  - rewrite PTR_CAST2_ALL_result. exact Hm.
Qed.

Lemma field_two_stage_example_witness :
  address (value (buf 0x1001)) = 0x1001
  /\ In (log_message LOG_INFO
           "Alignment error - (uint32_t *)(&((( struct I *) __CAST_PTR() (sav_ptr1))->x)) - alignment %zu, address %p"
           [Arg_zu 4; Arg_p 0x1005])
        (diagnostics (PTR_CAST2_ALL LP64 (Config false true) uint32_t
                        struct_I (buf 0x1001) I_x Unqualified))
  /\ address (result (PTR_CAST2_ALL LP64 (Config false true) uint32_t
                        struct_I (buf 0x1001) I_x Unqualified)) = 0x1005.
Proof.
  split; [reflexivity|].
  apply (field_two_stage_example LP64 false Unqualified (buf 0x1001)).
  reflexivity.
Defined.

(** ** Independence of the build options and of the qualifier *)

(** C7: for a fixed [CHECK_CAST_ALIGN], the builds with and without
    [CAST_VIA_VOID] compute the same thing: [PTR_CAST_ALL] and
    [PTR_CAST2_ALL] return the same pointer and make the same calls. *)
Theorem CAST_VIA_VOID_irrelevant (dm : data_model) (check : bool)
    (ty ty1 : ctype) (ptr : expr) (f : member) (q : qualifier) :
  PTR_CAST_ALL dm (Config true check) ty ptr q
    = PTR_CAST_ALL dm (Config false check) ty ptr q
  /\ PTR_CAST2_ALL dm (Config true check) ty ty1 ptr f q
    = PTR_CAST2_ALL dm (Config false check) ty ty1 ptr f q.
Proof.
  assert (H1 : forall e, PTR_CAST_ALL dm (Config true check) ty e q
                         = PTR_CAST_ALL dm (Config false check) ty e q).
  { intros e. unfold PTR_CAST_ALL, __CAST_PTR.
    destruct check; cbn [CHECK_CAST_ALIGN CAST_VIA_VOID]; reflexivity. }
  split; [apply H1|].
  unfold PTR_CAST2_ALL, __CAST_PTR.
  destruct check; cbn [CHECK_CAST_ALIGN CAST_VIA_VOID]; cbv zeta.
  - rewrite H1. reflexivity.
  - reflexivity.
Qed.

(** C8: the whole-object cast always returns, and on a null argument it
    returns a null pointer, in each of the four builds. *)
Theorem PTR_CAST_ALL_null (dm : data_model) (cfg : config) (ty : ctype)
    (ptr : expr) (q : qualifier) :
  address (value ptr) = 0 ->
  exists (p : pointer) (calls : list call),
    PTR_CAST_ALL dm cfg ty ptr q = (p, calls) /\ address p = 0.
Proof.
  intros H0.
  exists (result (PTR_CAST_ALL dm cfg ty ptr q)),
         (diagnostics (PTR_CAST_ALL dm cfg ty ptr q)).
  split.
  - unfold result, diagnostics. apply surjective_pairing.
  - rewrite PTR_CAST_ALL_result. exact H0.
Qed.

Lemma PTR_CAST_ALL_null_witness :
  exists (p : pointer) (calls : list call),
    PTR_CAST_ALL LP64 (Config true true) uint32_t NULL Unqualified = (p, calls)
    /\ address p = 0.
Proof.
  apply (PTR_CAST_ALL_null LP64 (Config true true) uint32_t NULL Unqualified).
  reflexivity.
Defined.

(** C9: with [CHECK_CAST_ALIGN], the whole-object cast of a null argument
    makes no call, whatever the alignment of the target type. *)
Theorem PTR_CAST_ALL_null_silent (dm : data_model) (via_void : bool)
    (ty : ctype) (ptr : expr) (q : qualifier) :
  address (value ptr) = 0 ->
  misaligned dm (value ptr) ty = false
  /\ diagnostics (PTR_CAST_ALL dm (Config via_void true) ty ptr q) = [].
Proof.
  intros H0.
  pose proof (misaligned_null dm (value ptr) ty H0) as Hal.
  split; [exact Hal|].
  rewrite PTR_CAST_ALL_diagnostics, Hal, andb_false_r. reflexivity.
Qed.

Lemma PTR_CAST_ALL_null_silent_witness :
  misaligned ILP32 (value NULL) struct_I = false
  /\ diagnostics (PTR_CAST_ALL ILP32 (Config false true) struct_I NULL Const)
     = [].
Proof.
  apply (PTR_CAST_ALL_null_silent ILP32 false struct_I NULL Const).
  reflexivity.
Defined.

(** The two field casts do not differ in the qualifier of the result alone:
    [PTR_CAST2_ALL] passes [__const] on inside the expression that
    [PTR_CAST_ALL] stringifies with [#__ptr], so that the message of the
    member check spells the qualifier. On the address [0x1001] and the member
    [x] of [struct I] the calls of [PTR_CAST2] and of [PTR_CAST2_CONST] are
    not the same. *)
Lemma PTR_CAST2_const_message_differs :
  diagnostics (PTR_CAST2 LP64 (Config false true) uint32_t struct_I
                 (buf 0x1001) I_x)
  = [ printf
        "Alignment error - (struct I *)(buf) - alignment %zu, address %p"
        [Arg_zu 4; Arg_p 0x1001];
      log_message LOG_INFO
        "Alignment error - (uint32_t *)(&((( struct I *) __CAST_PTR() (sav_ptr1))->x)) - alignment %zu, address %p"
        [Arg_zu 4; Arg_p 0x1005] ]
  /\ diagnostics (PTR_CAST2_CONST LP64 (Config false true) uint32_t struct_I
                    (buf 0x1001) I_x)
  = [ printf
        "Alignment error - (struct I *)(buf) - alignment %zu, address %p"
        [Arg_zu 4; Arg_p 0x1001];
      log_message LOG_INFO
        "Alignment error - (uint32_t *)(&(((const struct I *) __CAST_PTR(const) (sav_ptr1))->x)) - alignment %zu, address %p"
        [Arg_zu 4; Arg_p 0x1005] ]
  /\ diagnostics (PTR_CAST2 LP64 (Config false true) uint32_t struct_I
                    (buf 0x1001) I_x)
     <> diagnostics (PTR_CAST2_CONST LP64 (Config false true) uint32_t
                       struct_I (buf 0x1001) I_x).
Proof.
  split; [vm_compute; reflexivity|].
  split; [vm_compute; reflexivity|].
  intros H. vm_compute in H. discriminate H.
Qed.

(** C10, amended: [PTR_CAST] and [PTR_CAST_CONST] return pointers to the
    same address and the same type and make the same calls; the result of
    the plain variant is unqualified, the result of the [_CONST] variant is
    [const]. [PTR_CAST2] and [PTR_CAST2_CONST] likewise return pointers to
    the same address and the same type, differing in the qualifier, and make
    their calls under the same conditions, to the same functions with the
    same arguments: the call of the base check is the same, and the call of
    the member check, made by both or by neither, differs in the format
    string, which spells the expression with the qualifier of the
    variant. *)
Theorem const_variants_agree (dm : data_model) (cfg : config)
    (ty ty1 : ctype) (ptr : expr) (f : member) :
  (address (result (PTR_CAST dm cfg ty ptr))
     = address (result (PTR_CAST_CONST dm cfg ty ptr))
   /\ target (result (PTR_CAST dm cfg ty ptr))
     = target (result (PTR_CAST_CONST dm cfg ty ptr))
   /\ diagnostics (PTR_CAST dm cfg ty ptr)
     = diagnostics (PTR_CAST_CONST dm cfg ty ptr)
   /\ qual (result (PTR_CAST dm cfg ty ptr)) = Unqualified
   /\ qual (result (PTR_CAST_CONST dm cfg ty ptr)) = Const)
  /\
  (address (result (PTR_CAST2 dm cfg ty ty1 ptr f))
     = address (result (PTR_CAST2_CONST dm cfg ty ty1 ptr f))
   /\ target (result (PTR_CAST2 dm cfg ty ty1 ptr f))
     = target (result (PTR_CAST2_CONST dm cfg ty ty1 ptr f))
   /\ map signature (diagnostics (PTR_CAST2 dm cfg ty ty1 ptr f))
     = map signature (diagnostics (PTR_CAST2_CONST dm cfg ty ty1 ptr f))
   /\ qual (result (PTR_CAST2 dm cfg ty ty1 ptr f)) = Unqualified
   /\ qual (result (PTR_CAST2_CONST dm cfg ty ty1 ptr f)) = Const)
  /\
  (exists (base_calls : list call) (member_check : bool)
          (args : list fmt_arg),
     diagnostics (PTR_CAST2 dm cfg ty ty1 ptr f)
       = base_calls
         ++ (if member_check
             then [log_message LOG_INFO
                     (alignment_error (spelling ty)
                        (member_text Unqualified ty1 f)) args]
             else [])
     /\ diagnostics (PTR_CAST2_CONST dm cfg ty ty1 ptr f)
       = base_calls
         ++ (if member_check
             then [log_message LOG_INFO
                     (alignment_error (spelling ty)
                        (member_text Const ty1 f)) args]
             else [])
     /\ Forall (fun c => exists fmt a, c = printf fmt a) base_calls).
Proof.
  unfold PTR_CAST, PTR_CAST_CONST, PTR_CAST2, PTR_CAST2_CONST.
  rewrite !PTR_CAST_ALL_result, !PTR_CAST_ALL_diagnostics,
          !PTR_CAST2_ALL_result, !PTR_CAST2_ALL_diagnostics.
  rewrite (misaligned_address dm (member_pointer dm ty1 ptr f Unqualified)
             (member_pointer dm ty1 ptr f Const) ty) by reflexivity.
  split; [repeat split|]. split.
  - repeat split.
    rewrite !map_app. f_equal.
    destruct (CHECK_CAST_ALIGN cfg
              && misaligned dm (member_pointer dm ty1 ptr f Const) ty);
      reflexivity.
  - eexists _, _, _. split; [reflexivity|]. split; [reflexivity|].
    destruct (CHECK_CAST_ALIGN cfg && misaligned dm (value ptr) ty1);
      [|constructor].
    constructor; [|constructor]. eexists _, _. reflexivity.
Qed.

(** ** Further properties of the macros *)

Lemma IO_ext {A : Type} (m m' : IO A) :
  result m = result m' -> diagnostics m = diagnostics m' -> m = m'.
Proof.
  destruct m, m'; unfold result, diagnostics; cbn [fst snd].
  intros -> ->. reflexivity.
Qed.

Lemma mod_divide_trans (a : Z) (al al1 : positive) :
  (Z.pos al | Z.pos al1) -> a mod Z.pos al1 = 0 -> a mod Z.pos al = 0.
Proof.
  intros Hd Ha.
  apply Z.mod_divide in Ha; [|lia].
  apply Z.mod_divide; [lia|].
  exact (Z.divide_trans _ _ _ Hd Ha).
Qed.

Lemma member_pointer_misaligned dm ty ty1 ptr f q :
  valid_address dm (address (value ptr) + offset f) ->
  misaligned dm (member_pointer dm ty1 ptr f q) ty
  = negb ((address (value ptr) + offset f) mod Z.pos (alignof ty) =? 0).
Proof.
  intros Hv.
  assert (Ha : address (member_pointer dm ty1 ptr f q)
               = address (value ptr) + offset f)
    by (rewrite member_pointer_address; apply Z.mod_small; exact Hv).
  rewrite misaligned_valid by (rewrite Ha; exact Hv).
  rewrite Ha. reflexivity.
Qed.

Lemma PTR_CAST2_ALL_diagnostics_valid dm cfg ty ty1 ptr f q :
  CHECK_CAST_ALIGN cfg = true ->
  valid_address dm (address (value ptr)) ->
  valid_address dm (address (value ptr) + offset f) ->
  diagnostics (PTR_CAST2_ALL dm cfg ty ty1 ptr f q)
  = (if address (value ptr) mod Z.pos (alignof ty1) =? 0 then []
     else [printf (alignment_error (spelling ty1) (text ptr))
             [Arg_zu (Z.pos (alignof ty1)); Arg_p (address (value ptr))]])
    ++
    (if (address (value ptr) + offset f) mod Z.pos (alignof ty) =? 0 then []
     else [log_message LOG_INFO
             (alignment_error (spelling ty) (member_text q ty1 f))
             [Arg_zu (Z.pos (alignof ty));
              Arg_p (address (value ptr) + offset f)]]).
Proof.
  intros Hchk Hv Hvf.
  rewrite PTR_CAST2_ALL_diagnostics, Hchk. cbn [andb].
  rewrite misaligned_valid by exact Hv.
  rewrite member_pointer_misaligned by exact Hvf.
  rewrite member_pointer_address,
          (Z.mod_small _ (modulus dm)) by exact Hvf.
  destruct (address (value ptr) mod Z.pos (alignof ty1) =? 0);
    destruct ((address (value ptr) + offset f) mod Z.pos (alignof ty) =? 0);
    reflexivity.
Qed.

Ltac solve_valid_address :=
  unfold valid_address, modulus; simpl; lia.

(** X1: without [CHECK_CAST_ALIGN] neither [PTR_CAST_ALL] nor
    [PTR_CAST2_ALL] calls [log_message] or [printf], whatever the address. *)
Theorem unchecked_build_silent (dm : data_model) (cfg : config)
    (ty ty1 : ctype) (ptr : expr) (f : member) (q : qualifier) :
  CHECK_CAST_ALIGN cfg = false ->
  diagnostics (PTR_CAST_ALL dm cfg ty ptr q) = []
  /\ diagnostics (PTR_CAST2_ALL dm cfg ty ty1 ptr f q) = [].
Proof.
  intros Hchk.
  rewrite PTR_CAST_ALL_diagnostics, PTR_CAST2_ALL_diagnostics, Hchk.
  split; reflexivity.
Qed.

Lemma unchecked_build_silent_witness :
  diagnostics (PTR_CAST_ALL LP64 (Config true false) uint32_t (buf 0x1001)
                 Unqualified) = []
  /\ diagnostics (PTR_CAST2_ALL LP64 (Config true false) uint32_t struct_I
                    (buf 0x1001) I_x Unqualified) = [].
Proof.
  apply (unchecked_build_silent LP64 (Config true false) uint32_t struct_I
           (buf 0x1001) I_x Unqualified).
  reflexivity.
Defined.

(** X2: with [CHECK_CAST_ALIGN], the calls of the field cast are, in this
    order: a [printf] with the alignment of the intermediate type and the
    base address iff the base address is not a multiple of that alignment,
    then a [log_message] with the alignment of the target type and the member
    address iff the member address is not a multiple of that alignment. *)
Theorem PTR_CAST2_ALL_two_stage (dm : data_model) (cfg : config)
    (ty ty1 : ctype) (ptr : expr) (f : member) (q : qualifier) :
  CHECK_CAST_ALIGN cfg = true ->
  valid_address dm (address (value ptr)) ->
  valid_address dm (address (value ptr) + offset f) ->
  diagnostics (PTR_CAST2_ALL dm cfg ty ty1 ptr f q)
  = (if address (value ptr) mod Z.pos (alignof ty1) =? 0 then []
     else [printf (alignment_error (spelling ty1) (text ptr))
             [Arg_zu (Z.pos (alignof ty1)); Arg_p (address (value ptr))]])
    ++
    (if (address (value ptr) + offset f) mod Z.pos (alignof ty) =? 0 then []
     else [log_message LOG_INFO
             (alignment_error (spelling ty) (member_text q ty1 f))
             [Arg_zu (Z.pos (alignof ty));
              Arg_p (address (value ptr) + offset f)]]).
Proof. apply PTR_CAST2_ALL_diagnostics_valid. Qed.

Lemma PTR_CAST2_ALL_two_stage_witness :
  diagnostics (PTR_CAST2_ALL ILP32 (Config true true) uint32_t struct_J
                 (buf 0x2000) J_b Const)
  = [log_message LOG_INFO
       "Alignment error - (uint32_t *)(&(((const struct J *) __CAST_PTR(const) (sav_ptr1))->b)) - alignment %zu, address %p"
       [Arg_zu 4; Arg_p 0x2002]].
Proof.
  apply (PTR_CAST2_ALL_two_stage ILP32 (Config true true) uint32_t struct_J
           (buf 0x2000) J_b Const).
  - reflexivity.
  - solve_valid_address.
  - solve_valid_address.
Defined.

(** X3: in every build the field cast makes no call when the base address is
    a multiple of the alignment of the intermediate type, the alignment of
    the target type divides that alignment, and the member's offset is a
    multiple of the alignment of the target type. *)
Theorem PTR_CAST2_ALL_aligned_silent (dm : data_model) (cfg : config)
    (ty ty1 : ctype) (ptr : expr) (f : member) (q : qualifier) :
  valid_address dm (address (value ptr)) ->
  valid_address dm (address (value ptr) + offset f) ->
  address (value ptr) mod Z.pos (alignof ty1) = 0 ->
  (Z.pos (alignof ty) | Z.pos (alignof ty1)) ->
  offset f mod Z.pos (alignof ty) = 0 ->
  diagnostics (PTR_CAST2_ALL dm cfg ty ty1 ptr f q) = [].
Proof.
  intros Hv Hvf Hbase Hdiv Hoff.
  destruct (CHECK_CAST_ALIGN cfg) eqn:Hchk.
  - rewrite PTR_CAST2_ALL_diagnostics_valid by assumption.
    rewrite Hbase. cbn [Z.eqb app].
    pose proof (mod_divide_trans _ _ _ Hdiv Hbase) as Hb.
    assert (Hm : (address (value ptr) + offset f) mod Z.pos (alignof ty) = 0).
    { rewrite Z.add_mod, Hb, Hoff by lia. reflexivity. }
    rewrite Hm. reflexivity.
  - rewrite PTR_CAST2_ALL_diagnostics, Hchk. reflexivity.
Qed.

Lemma PTR_CAST2_ALL_aligned_silent_witness :
  diagnostics (PTR_CAST2_ALL LP64 (Config false true) uint32_t struct_I
                 (buf 0x1000) I_x Unqualified) = [].
Proof.
  apply (PTR_CAST2_ALL_aligned_silent LP64 (Config false true) uint32_t
           struct_I (buf 0x1000) I_x Unqualified).
  - solve_valid_address.
  - solve_valid_address.
  - reflexivity.
  - exists 1; reflexivity.
  - reflexivity.
Defined.

(** X4: with [CHECK_CAST_ALIGN], when the base address is a multiple of the
    alignment of the intermediate type, the alignment of the target type
    divides that alignment and the member's offset is not a multiple of the
    alignment of the target type, the field cast makes exactly one call, a
    [log_message] with the member address. *)
Theorem PTR_CAST2_ALL_member_misaligned (dm : data_model) (cfg : config)
    (ty ty1 : ctype) (ptr : expr) (f : member) (q : qualifier) :
  CHECK_CAST_ALIGN cfg = true ->
  valid_address dm (address (value ptr)) ->
  valid_address dm (address (value ptr) + offset f) ->
  address (value ptr) mod Z.pos (alignof ty1) = 0 ->
  (Z.pos (alignof ty) | Z.pos (alignof ty1)) ->
  offset f mod Z.pos (alignof ty) <> 0 ->
  diagnostics (PTR_CAST2_ALL dm cfg ty ty1 ptr f q)
  = [log_message LOG_INFO
       (alignment_error (spelling ty) (member_text q ty1 f))
       [Arg_zu (Z.pos (alignof ty)); Arg_p (address (value ptr) + offset f)]].
Proof.
  intros Hchk Hv Hvf Hbase Hdiv Hoff.
  rewrite PTR_CAST2_ALL_diagnostics_valid by assumption.
  rewrite Hbase. cbn [Z.eqb app].
  pose proof (mod_divide_trans _ _ _ Hdiv Hbase) as Hb.
  assert (Hm : (address (value ptr) + offset f) mod Z.pos (alignof ty) <> 0).
  { rewrite Z.add_mod, Hb, Z.add_0_l, Z.mod_mod by lia. exact Hoff. }
  apply Z.eqb_neq in Hm. rewrite Hm. reflexivity.
Qed.

Lemma PTR_CAST2_ALL_member_misaligned_witness :
  diagnostics (PTR_CAST2_ALL LP64 (Config false true) uint32_t struct_J
                 (buf 0x2000) J_b Unqualified)
  = [log_message LOG_INFO
       (alignment_error "uint32_t" (member_text Unqualified struct_J J_b))
       [Arg_zu 4; Arg_p 0x2002]].
Proof.
  apply (PTR_CAST2_ALL_member_misaligned LP64 (Config false true) uint32_t
           struct_J (buf 0x2000) J_b Unqualified).
  - reflexivity.
  - solve_valid_address.
  - solve_valid_address.
  - reflexivity.
  - exists 1; reflexivity.
  - vm_compute; lia.
Defined.

(** X5: with [CHECK_CAST_ALIGN], when the base address is not a multiple of
    the alignment of the intermediate type but the member address is a
    multiple of the alignment of the target type, the only call of the field
    cast is a [printf]: [log_message] is not called. *)
Theorem PTR_CAST2_ALL_base_misaligned_only (dm : data_model) (cfg : config)
    (ty ty1 : ctype) (ptr : expr) (f : member) (q : qualifier) :
  CHECK_CAST_ALIGN cfg = true ->
  valid_address dm (address (value ptr)) ->
  valid_address dm (address (value ptr) + offset f) ->
  address (value ptr) mod Z.pos (alignof ty1) <> 0 ->
  (address (value ptr) + offset f) mod Z.pos (alignof ty) = 0 ->
  diagnostics (PTR_CAST2_ALL dm cfg ty ty1 ptr f q)
  = [printf (alignment_error (spelling ty1) (text ptr))
       [Arg_zu (Z.pos (alignof ty1)); Arg_p (address (value ptr))]].
Proof.
  intros Hchk Hv Hvf Hbase Hm.
  rewrite PTR_CAST2_ALL_diagnostics_valid by assumption.
  apply Z.eqb_neq in Hbase. rewrite Hbase, Hm. reflexivity.
Qed.

Lemma PTR_CAST2_ALL_base_misaligned_only_witness :
  diagnostics (PTR_CAST2_ALL LP64 (Config true true) uint32_t struct_J
                 (buf 0x2002) J_b Unqualified)
  = [printf "Alignment error - (struct J *)(buf) - alignment %zu, address %p"
       [Arg_zu 4; Arg_p 0x2002]].
Proof.
  apply (PTR_CAST2_ALL_base_misaligned_only LP64 (Config true true) uint32_t
           struct_J (buf 0x2002) J_b Unqualified).
  - reflexivity.
  - solve_valid_address.
  - solve_valid_address.
  - vm_compute; lia.
  - reflexivity.
Defined.

(** X6: [CHECK_CAST_ALIGN] changes the calls only: the pointer returned by
    [PTR_CAST_ALL] and by [PTR_CAST2_ALL] (address, target type and
    qualifier) is the same in the checked and in the unchecked build. *)
Theorem CHECK_CAST_ALIGN_keeps_result (dm : data_model) (via_void : bool)
    (ty ty1 : ctype) (ptr : expr) (f : member) (q : qualifier) :
  result (PTR_CAST_ALL dm (Config via_void true) ty ptr q)
    = result (PTR_CAST_ALL dm (Config via_void false) ty ptr q)
  /\ result (PTR_CAST2_ALL dm (Config via_void true) ty ty1 ptr f q)
    = result (PTR_CAST2_ALL dm (Config via_void false) ty ty1 ptr f q).
Proof.
  rewrite !PTR_CAST_ALL_result, !PTR_CAST2_ALL_result. split; reflexivity.
Qed.

(** X7: the macros use the address and the spelling of their pointer
    argument only: two arguments spelled alike that hold the same address,
    whatever their static types, give the same pointer and the same calls. *)
Theorem casts_depend_on_address_only (dm : data_model) (cfg : config)
    (ty ty1 : ctype) (ptr ptr' : expr) (f : member) (q : qualifier) :
  address (value ptr) = address (value ptr') ->
  text ptr = text ptr' ->
  PTR_CAST_ALL dm cfg ty ptr q = PTR_CAST_ALL dm cfg ty ptr' q
  /\ PTR_CAST2_ALL dm cfg ty ty1 ptr f q = PTR_CAST2_ALL dm cfg ty ty1 ptr' f q.
Proof.
  intros Ha Ht.
  assert (Hm : member_pointer dm ty1 ptr f q = member_pointer dm ty1 ptr' f q)
    by (unfold member_pointer, member_address; cbn [convert qual address];
        rewrite Ha; reflexivity).
  split; apply IO_ext.
  - rewrite !PTR_CAST_ALL_result. unfold convert. rewrite Ha. reflexivity.
  - rewrite !PTR_CAST_ALL_diagnostics.
    rewrite (misaligned_address dm _ _ ty Ha), Ha, Ht. reflexivity.
  - rewrite !PTR_CAST2_ALL_result, Hm. reflexivity.
  - rewrite !PTR_CAST2_ALL_diagnostics.
    rewrite (misaligned_address dm _ _ ty1 Ha), Ha, Ht, Hm. reflexivity.
Qed.

Lemma casts_depend_on_address_only_witness :
  PTR_CAST_ALL LP64 (Config false true) uint32_t (buf 0x1001) Const
    = PTR_CAST_ALL LP64 (Config false true) uint32_t (const_buf 0x1001) Const
  /\ PTR_CAST2_ALL LP64 (Config false true) uint32_t struct_I (buf 0x1001)
       I_x Const
     = PTR_CAST2_ALL LP64 (Config false true) uint32_t struct_I
         (const_buf 0x1001) I_x Const.
Proof.
  apply (casts_depend_on_address_only LP64 (Config false true) uint32_t
           struct_I (buf 0x1001) (const_buf 0x1001) I_x Const).
  - reflexivity.
  - reflexivity.
Defined.

(** X8: [PTR_CAST_ASSIGN] and [PTR_CAST_ASSIGN_CONST] keep the address, and
    leave the pointer as it is without [CAST_VIA_VOID]; a whole-object cast
    of a pointer that went through one of them returns the same pointer, and
    makes the same calls with the same arguments, as the cast of the pointer
    itself. *)
Theorem PTR_CAST_ASSIGN_transparent (dm : data_model) (cfg : config)
    (ty : ctype) (p : pointer) (src src' : string) (q : qualifier) :
  address (PTR_CAST_ASSIGN cfg p) = address p
  /\ address (PTR_CAST_ASSIGN_CONST cfg p) = address p
  /\ (if CAST_VIA_VOID cfg
      then PTR_CAST_ASSIGN cfg p = convert Unqualified Void p
           /\ PTR_CAST_ASSIGN_CONST cfg p = convert Const Void p
      else PTR_CAST_ASSIGN cfg p = p /\ PTR_CAST_ASSIGN_CONST cfg p = p)
  /\ result (PTR_CAST_ALL dm cfg ty
               {| text := src'; value := PTR_CAST_ASSIGN cfg p |} q)
     = result (PTR_CAST_ALL dm cfg ty {| text := src; value := p |} q)
  /\ map signature
       (diagnostics (PTR_CAST_ALL dm cfg ty
                       {| text := src'; value := PTR_CAST_ASSIGN cfg p |} q))
     = map signature
         (diagnostics (PTR_CAST_ALL dm cfg ty {| text := src; value := p |} q))
  /\ result (PTR_CAST_ALL dm cfg ty
               {| text := src'; value := PTR_CAST_ASSIGN_CONST cfg p |} q)
     = result (PTR_CAST_ALL dm cfg ty {| text := src; value := p |} q)
  /\ map signature
       (diagnostics (PTR_CAST_ALL dm cfg ty
                       {| text := src';
                          value := PTR_CAST_ASSIGN_CONST cfg p |} q))
     = map signature
         (diagnostics (PTR_CAST_ALL dm cfg ty {| text := src; value := p |} q)).
Proof.
  assert (H1 : address (PTR_CAST_ASSIGN cfg p) = address p)
    by (unfold PTR_CAST_ASSIGN; destruct (CAST_VIA_VOID cfg); reflexivity).
  assert (H2 : address (PTR_CAST_ASSIGN_CONST cfg p) = address p)
    by (unfold PTR_CAST_ASSIGN_CONST; destruct (CAST_VIA_VOID cfg);
        reflexivity).
  assert (Hsig : forall p', address p' = address p ->
            map signature
              (diagnostics (PTR_CAST_ALL dm cfg ty
                              {| text := src'; value := p' |} q))
            = map signature
                (diagnostics (PTR_CAST_ALL dm cfg ty
                                {| text := src; value := p |} q))).
  { intros p' Ha. rewrite !PTR_CAST_ALL_diagnostics; cbn [value text].
    rewrite (misaligned_address dm p' p ty Ha), Ha.
    destruct (CHECK_CAST_ALIGN cfg && misaligned dm p ty); reflexivity. }
  split; [exact H1|]. split; [exact H2|]. split.
  { unfold PTR_CAST_ASSIGN, PTR_CAST_ASSIGN_CONST.
    destruct (CAST_VIA_VOID cfg); split; reflexivity. }
  rewrite !PTR_CAST_ALL_result; cbn [value]. unfold convert.
  rewrite H1, H2.
  split; [reflexivity|]. split; [apply Hsig; exact H1|].
  split; [reflexivity|]. apply Hsig; exact H2.
Qed.

(** X9: a whole-object cast to a type of alignment 1 never makes a call,
    whatever the address and the build. *)
Theorem PTR_CAST_ALL_alignment_one_silent (dm : data_model) (cfg : config)
    (ty : ctype) (ptr : expr) (q : qualifier) :
  alignof ty = 1%positive ->
  diagnostics (PTR_CAST_ALL dm cfg ty ptr q) = [].
Proof.
  intros H1. rewrite PTR_CAST_ALL_diagnostics.
  unfold misaligned. rewrite H1, Z.rem_1_r, andb_false_r. reflexivity.
Qed.

Lemma PTR_CAST_ALL_alignment_one_silent_witness :
  diagnostics (PTR_CAST_ALL LP64 (Config false true) char (buf 0x1001)
                 Unqualified) = [].
Proof.
  apply (PTR_CAST_ALL_alignment_one_silent LP64 (Config false true) char
           (buf 0x1001) Unqualified).
  reflexivity.
Defined.

(** X10: on every address of the ABI, [(long)p] is the address itself in
    the lower half of the address space and the address minus the word
    modulus (a negative number) in the upper half; in both halves the test
    [(long)p % __alignof__(t)] is nonzero exactly when the address is not a
    multiple of the alignment. *)
Theorem alignment_test_exact (dm : data_model) (p : pointer) (t : ctype) :
  valid_address dm (address p) ->
  to_long dm (address p)
    = (if address p <? modulus dm / 2 then address p
       else address p - modulus dm)
  /\ misaligned dm p t = negb (address p mod Z.pos (alignof t) =? 0).
Proof.
  intros Hv. split.
  - unfold to_long; cbv zeta. rewrite Z.mod_small by exact Hv. reflexivity.
  - apply misaligned_valid. exact Hv.
Qed.

Lemma alignment_test_exact_witness :
  to_long ILP32 0xFFFFFFFE = -2
  /\ misaligned ILP32 (value (buf 0xFFFFFFFE)) uint32_t = true.
Proof.
  apply (alignment_test_exact ILP32 (value (buf 0xFFFFFFFE)) uint32_t).
  solve_valid_address.
Defined.

(** X11: with [CHECK_CAST_ALIGN], an address whose cast to a type makes no
    call is also cast without a call to every type whose alignment divides
    the alignment of the first. *)
Theorem PTR_CAST_ALL_weaker_alignment_silent (dm : data_model) (cfg : config)
    (ty ty' : ctype) (ptr : expr) (q q' : qualifier) :
  CHECK_CAST_ALIGN cfg = true ->
  valid_address dm (address (value ptr)) ->
  (Z.pos (alignof ty') | Z.pos (alignof ty)) ->
  diagnostics (PTR_CAST_ALL dm cfg ty ptr q) = [] ->
  diagnostics (PTR_CAST_ALL dm cfg ty' ptr q') = [].
Proof.
  intros Hchk Hv Hdiv.
  rewrite !PTR_CAST_ALL_diagnostics, Hchk, !misaligned_valid by exact Hv.
  cbn [andb].
  destruct (Z.eqb_spec (address (value ptr) mod Z.pos (alignof ty)) 0)
    as [Hal | Hmis]; [|discriminate].
  intros _. rewrite (mod_divide_trans _ _ _ Hdiv Hal). reflexivity.
Qed.

Lemma PTR_CAST_ALL_weaker_alignment_silent_witness :
  diagnostics (PTR_CAST_ALL LP64 (Config false true) uint16_t (buf 0x1004)
                 Unqualified) = [].
Proof.
  apply (PTR_CAST_ALL_weaker_alignment_silent LP64 (Config false true)
           uint32_t uint16_t (buf 0x1004) Const Unqualified).
  - reflexivity.
  - solve_valid_address.
  - exists 2; reflexivity.
  - reflexivity.
Defined.

(** X12: in every build the field cast is the test of the base address
    followed by the whole-object cast of the member's address; without
    [CHECK_CAST_ALIGN] it is that whole-object cast alone. *)
Theorem PTR_CAST2_ALL_composition (dm : data_model) (cfg : config)
    (ty ty1 : ctype) (ptr : expr) (f : member) (q : qualifier) :
  PTR_CAST2_ALL dm cfg ty ty1 ptr f q
    = (base_check dm cfg ty1 ptr ;;
       PTR_CAST_ALL dm cfg ty (member_expr dm ty1 ptr f q) q)
  /\ PTR_CAST2_ALL dm (Config (CAST_VIA_VOID cfg) false) ty ty1 ptr f q
    = PTR_CAST_ALL dm (Config (CAST_VIA_VOID cfg) false) ty
        (member_expr dm ty1 ptr f q) q.
Proof.
  split; apply IO_ext.
  - rewrite result_bind, PTR_CAST2_ALL_result, PTR_CAST_ALL_result.
    reflexivity.
  - rewrite diagnostics_bind, PTR_CAST2_ALL_diagnostics,
            PTR_CAST_ALL_diagnostics.
    unfold base_check. rewrite diagnostics_when. reflexivity.
  - rewrite PTR_CAST2_ALL_result, PTR_CAST_ALL_result. reflexivity.
  - rewrite PTR_CAST2_ALL_diagnostics, PTR_CAST_ALL_diagnostics.
    reflexivity.
Qed.

(** X13: whatever the argument and the build, the whole-object cast makes at
    most one call, always [log_message] at [LOG_INFO]; the field cast makes
    at most two, and a [printf] only before a [log_message]. *)
Theorem diagnostics_bounded (dm : data_model) (cfg : config)
    (ty ty1 : ctype) (ptr : expr) (f : member) (q : qualifier) :
  In (map sink_of (diagnostics (PTR_CAST_ALL dm cfg ty ptr q)))
     [ []; [Logger LOG_INFO] ]
  /\ In (map sink_of (diagnostics (PTR_CAST2_ALL dm cfg ty ty1 ptr f q)))
        [ []; [Stdout]; [Logger LOG_INFO]; [Stdout; Logger LOG_INFO] ].
Proof.
  rewrite PTR_CAST_ALL_diagnostics, PTR_CAST2_ALL_diagnostics.
  destruct (CHECK_CAST_ALIGN cfg); cbn [andb].
  - destruct (misaligned dm (value ptr) ty);
      destruct (misaligned dm (value ptr) ty1);
      destruct (misaligned dm (member_pointer dm ty1 ptr f q) ty);
      split; cbn; auto 6.
  - split; cbn; auto.
Qed.

(** X14: the field cast of a member at offset 0 returns the pointer that the
    whole-object cast of the same argument returns. *)
Theorem PTR_CAST2_ALL_first_member (dm : data_model) (cfg : config)
    (ty ty1 : ctype) (ptr : expr) (f : member) (q : qualifier) :
  valid_address dm (address (value ptr)) ->
  offset f = 0 ->
  result (PTR_CAST2_ALL dm cfg ty ty1 ptr f q)
    = result (PTR_CAST_ALL dm cfg ty ptr q).
Proof.
  intros Hv H0.
  rewrite PTR_CAST2_ALL_result, PTR_CAST_ALL_result.
  unfold convert. rewrite member_pointer_address, H0, Z.add_0_r.
  rewrite Z.mod_small by exact Hv. reflexivity.
Qed.

Lemma PTR_CAST2_ALL_first_member_witness :
  result (PTR_CAST2_ALL LP64 (Config true true) uint32_t struct_I
            (buf 0x1001) I_pad Const)
    = result (PTR_CAST_ALL LP64 (Config true true) uint32_t (buf 0x1001) Const).
Proof.
  apply (PTR_CAST2_ALL_first_member LP64 (Config true true) uint32_t struct_I
           (buf 0x1001) I_pad Const).
  - solve_valid_address.
  - reflexivity.
Defined.
